(** * Auth0Web — the session manager of [src/index.ts]

    A shallow embedding of the class [Auth0Web] and of the part of its
    environment it talks to: the auth0-js [WebAuth] client, the browser's
    [window.location.hash], the clock behind [Date.now()] and the
    subscriber callbacks supplied by the application.

    Conventions of the embedding.
    - An optional parameter [audience?: string] is an [option string];
      the JavaScript truthiness test the code applies to it ([audience ||
      DEFAULT_KEY], [if (audience)]) is [truthy]: [undefined] and the
      empty string are falsy.
    - The objects used as dictionaries ([TokenMap], [SubscriberMap]) are
      finite maps of what was assigned to them.  [_accessTokens] is a
      plain object, so reading [_accessTokens[key]] also finds what the
      object inherits: [get_property] is that read, and the test
      [if (_accessTokens[key])] is [truthy_value] of it.  Assigning an
      entry to the key [__proto__] makes the entry the prototype of the
      object instead of an own property; the map records it under that
      key, and [get_property] reads the members of the entry through it.
      A [SubscriberMap] key is the number returned by [Date.now()], so
      the map is keyed by [Z]; it is only read at its own keys.  The
      order in which [Object.keys] lists the subscribers is not
      modelled: statements about notifications speak about membership
      only.
    - JavaScript numbers holding timestamps and durations are integers
      ([Z]).
    - The types of auth0-js ([Auth0UserProfile], [Auth0Error],
      [AuthOptions]) and the type of subscriber callbacks are parameters
      of the development.  A subscriber is known by the record of its
      invocations ([invoke]); it returns normally and does not call back
      into the manager.
    - A method that hands a callback to the SDK returns a [Promise] that
      is pending on that request and carries the callback; the
      environment resumes it with the provider's [Reply], in whatever
      [World] exists at that time. *)

From stdpp Require Import gmap strings list fin_maps.

(** ** Constants and plain data *)

Definition IMPLICTY_RESPONSE_TYPE : string := "token id_token".

Definition DEFAULT_KEY : string := "default".

(** [interface AuthResult] *)
Record AuthResult := {
  accessToken : string;
  idToken : string;
  expiresIn : Z;
}.

(** The values of a [TokenMap] (the local [accessTokenDetails]). *)
Module Details.
Record t := mk {
  accessToken : string;
  expiresAt : Z;
}.
End Details.

(** The names every plain object inherits from [Object.prototype]: its
    methods, and the accessor [__proto__]. *)
Definition Object_prototype : list string :=
  ["constructor"; "hasOwnProperty"; "isPrototypeOf"; "propertyIsEnumerable";
   "toLocaleString"; "toString"; "valueOf"; "__proto__";
   "__defineGetter__"; "__defineSetter__"; "__lookupGetter__";
   "__lookupSetter__"].

(** What reading [_accessTokens[key]] can return: an entry, a member of
    an entry (a string or a number), or a function or object of the
    language. *)
Inductive Value :=
  | entry (details : Details.t)
  | text (s : string)
  | number (n : Z)
  | builtin.

(** [tokens[key]] for the plain object [tokens]: the own property, or
    else what the prototype chain gives — the members of the entry that
    was assigned to [__proto__], if any, and then those of
    [Object.prototype]. *)
Definition get_property (tokens : gmap string Details.t) (key : string)
    : option Value :=
  match tokens !! key with
  | Some details => Some (entry details)
  | None =>
      let inherited :=
        if bool_decide (key ∈ Object_prototype) then Some builtin else None in
      match tokens !! "__proto__" with
      | Some details =>
          if decide (key = "accessToken")
          then Some (text (Details.accessToken details))
          else if decide (key = "expiresAt")
          then Some (number (Details.expiresAt details))
          else inherited
      | None => inherited
      end
  end.

(** The truthiness of what was read: [undefined], the empty string and
    zero are falsy. *)
Definition truthy_value (v : option Value) : bool :=
  match v with
  | Some (entry _) => true
  | Some (text s) => bool_decide (s ≠ "")
  | Some (number n) => bool_decide (n ≠ 0%Z)
  | Some builtin => true
  | None => false
  end.

(** The truthiness of an optional string: [Some a] for a non-empty [a]. *)
Definition truthy (audience : option string) : option string :=
  match audience with
  | Some a => if decide (a = "") then None else Some a
  | None => None
  end.

(** [audience || DEFAULT_KEY] *)
Definition slot (audience : option string) : string :=
  match truthy audience with
  | Some a => a
  | None => DEFAULT_KEY
  end.

Section Auth0Web.

Context {Auth0UserProfile Auth0Error AuthOptions Subscriber : Type}.

(** [error.error], the discriminator of an error of the SDK, and the
    [clientID] member of the options. *)
Context (error : Auth0Error → string) (clientID : AuthOptions → string).

(** ** The instance and its world *)

Record Auth0Web := {
  _accessTokens : gmap string Details.t;
  _currentProperties : AuthOptions;
  _idToken : option string;
  _profile : option Auth0UserProfile;
  _subscribers : gmap Z Subscriber;
}.

Record World := {
  this : Auth0Web;
  location_hash : string;
  Date_now : Z;
}.

(** Synchronous effects on the outside: the two redirects of the SDK and
    the invocation of a subscriber (with the key it is registered under). *)
Inductive Effect :=
  | authorize
  | logout (returnTo : option string) (client : string)
  | invoke (subscriberKey : Z) (subscriber : Subscriber)
           (authenticated : bool) (audience : option string).

(** Computations: read and write the world, emit effects in order. *)
Definition M (A : Type) : Type := World → A * World * list Effect.

#[local] Instance M_ret : MRet M := λ A a w, (a, w, []).

#[local] Instance M_bind : MBind M := λ A B f m w,
  let '(a, w1, e1) := m w in
  let '(b, w2, e2) := f a w1 in
  (b, w2, e1 ++ e2).

Definition emit (e : Effect) : M unit := λ w, (tt, w, [e]).

Definition self : M Auth0Web := λ w, (this w, w, []).

Definition now : M Z := λ w, (Date_now w, w, []).

Definition update (f : Auth0Web → Auth0Web) : M unit := λ w,
  (tt, {| this := f (this w); location_hash := location_hash w;
          Date_now := Date_now w |}, []).

Definition set_location_hash (h : string) : M unit := λ w,
  (tt, {| this := this w; location_hash := h; Date_now := Date_now w |}, []).

Definition set_accessTokens (m : gmap string Details.t) (o : Auth0Web) : Auth0Web :=
  {| _accessTokens := m; _currentProperties := _currentProperties o;
     _idToken := _idToken o; _profile := _profile o;
     _subscribers := _subscribers o |}.

Definition set_idToken (t : option string) (o : Auth0Web) : Auth0Web :=
  {| _accessTokens := _accessTokens o; _currentProperties := _currentProperties o;
     _idToken := t; _profile := _profile o;
     _subscribers := _subscribers o |}.

Definition set_profile (p : option Auth0UserProfile) (o : Auth0Web) : Auth0Web :=
  {| _accessTokens := _accessTokens o; _currentProperties := _currentProperties o;
     _idToken := _idToken o; _profile := p;
     _subscribers := _subscribers o |}.

Definition set_subscribers (m : gmap Z Subscriber) (o : Auth0Web) : Auth0Web :=
  {| _accessTokens := _accessTokens o; _currentProperties := _currentProperties o;
     _idToken := _idToken o; _profile := _profile o;
     _subscribers := m |}.

(** ** Callbacks and promises *)

(** What the SDK passes to a callback [(err, result)]. *)
Inductive Reply (A : Type) :=
  | Failure (err : Auth0Error)
  | Success (result : A).

Inductive Settlement (A : Type) :=
  | resolve (value : A)
  | reject (err : Auth0Error).

(** A promise is settled, or pending on one request to the SDK whose
    callback will continue it. *)
#[warnings="-register-all"] Inductive Promise (A : Type) :=
  | Settled (s : Settlement A)
  | WebAuth_parseHash (callback : Reply AuthResult → M (Promise A))
  | WebAuth_checkSession (audience : option string) (scope : string)
      (callback : Reply AuthResult → M (Promise A))
  | WebAuth_userInfo (token : string)
      (callback : Reply Auth0UserProfile → M (Promise A)).

Arguments Failure {A} err.
Arguments Success {A} result.
Arguments resolve {A} value.
Arguments reject {A} err.
Arguments Settled {A} s.
Arguments WebAuth_parseHash {A} callback.
Arguments WebAuth_checkSession {A} audience scope callback.
Arguments WebAuth_userInfo {A} token callback.

(** [f] applied to the settlement of [p], once [p] settles: the shape of
    [try { resolve(g(await p)) } catch (err) { reject(err) }]. *)
Fixpoint await {A B : Type} (p : Promise A) (f : Settlement A → Settlement B)
    : Promise B :=
  let later {R} (callback : Reply R → M (Promise A)) : Reply R → M (Promise B) :=
    λ r w, let '(p', w', e) := callback r w in (await p' f, w', e) in
  match p with
  | Settled s => Settled (f s)
  | WebAuth_parseHash callback => WebAuth_parseHash (later callback)
  | WebAuth_checkSession audience scope callback =>
      WebAuth_checkSession audience scope (later callback)
  | WebAuth_userInfo token callback => WebAuth_userInfo token (later callback)
  end.

(** ** The class *)

(** The client, [new WebAuth({...properties, responseType:
    IMPLICTY_RESPONSE_TYPE})], is part of the environment. *)
Definition constructor (properties : AuthOptions) : Auth0Web :=
  {| _accessTokens := ∅; _currentProperties := properties;
     _idToken := None; _profile := None; _subscribers := ∅ |}.

Definition getProfile (o : Auth0Web) : option Auth0UserProfile := _profile o.

Definition getAccessToken (o : Auth0Web) (audience : option string)
    : option string :=
  match _accessTokens o !! slot audience with
  | None => None
  | Some details => Some (Details.accessToken details)
  end.

Definition getProperties (o : Auth0Web) : AuthOptions := _currentProperties o.

Definition isAuthenticated (o : Auth0Web) (audience : option string) : bool :=
  if truthy_value (get_property (_accessTokens o) (slot audience))
  then true
  else false.

Definition notifySubscribers (authenticated : bool) (audience : option string)
    : M unit := λ w,
  (tt, w, (λ '(subscriberKey, subscriber),
             invoke subscriberKey subscriber authenticated audience)
          <$> map_to_list (_subscribers (this w))).

(** [this._accessTokens] is an object from the field initialiser on and is
    only ever replaced by an object, so the guard of line 122 never fires. *)
Definition addAccessToken (accessToken : string) (expiresAt : Z)
    (audience : option string) : M unit :=
  let accessTokenDetails := Details.mk accessToken expiresAt in
  o ← self;
  (match _accessTokens o !! DEFAULT_KEY with
   | None => update (λ o, set_accessTokens
                 (<[DEFAULT_KEY := accessTokenDetails]> (_accessTokens o)) o)
   | Some _ => mret tt
   end);;
  match truthy audience with
  | Some a => update (λ o, set_accessTokens
                 (<[a := accessTokenDetails]> (_accessTokens o)) o)
  | None => mret tt
  end.

Definition clearSession : M unit :=
  update (set_profile None);;
  update (set_accessTokens ∅);;
  update (set_idToken None);;
  notifySubscribers false None.

(** The callback given to [client.userInfo]; it resolves with no value. *)
Definition loadProfile_callback (authResult : AuthResult)
    (audience : option string) (reply : Reply Auth0UserProfile)
    : M (Promise (option Auth0UserProfile)) :=
  match reply with
  | Failure err => mret (Settled (reject err))
  | Success profile =>
      t ← now;
      let expiresAt := (expiresIn authResult * 1000 + t)%Z in
      addAccessToken (accessToken authResult) expiresAt audience;;
      update (set_idToken (Some (idToken authResult)));;
      update (set_profile (Some profile));;
      notifySubscribers true None;;
      mret (Settled (resolve None))
  end.

Definition loadProfile (authResult : AuthResult) (audience : option string)
    : M (Promise (option Auth0UserProfile)) :=
  mret (WebAuth_userInfo (accessToken authResult)
          (loadProfile_callback authResult audience)).

Definition handleAuthResult (authResult : AuthResult)
    (audience : option string) : M (Promise (option Auth0UserProfile)) :=
  set_location_hash "";;
  loadProfile authResult audience.

Definition signIn : M unit := emit authorize.

Definition signOut (returnTo : option string) : M unit :=
  clearSession;;
  o ← self;
  emit (logout returnTo (clientID (_currentProperties o))).

Definition parseHash_callback (reply : Reply AuthResult)
    : M (Promise (option Auth0UserProfile)) :=
  match reply with
  | Failure err => mret (Settled (reject err))
  | Success authResult =>
      set_location_hash "";;
      p ← loadProfile authResult None;
      mret (await p (λ s, match s with
                          | resolve v => resolve v
                          | reject err => reject err
                          end))
  end.

Definition parseHash : M (Promise (option Auth0UserProfile)) :=
  mret (WebAuth_parseHash parseHash_callback).

Definition checkSession_callback (audience : option string)
    (reply : Reply AuthResult) : M (Promise bool) :=
  match reply with
  | Failure err =>
      if decide (error err = "login_required")
      then mret (Settled (resolve false))
      else mret (Settled (reject err))
  | Success authResult =>
      o ← self;
      if isAuthenticated o None then
        t ← now;
        let expiresAt := (expiresIn authResult * 1000 + t)%Z in
        addAccessToken (accessToken authResult) expiresAt audience;;
        mret (Settled (resolve true))
      else
        p ← handleAuthResult authResult audience;
        mret (await p (λ s, match s with
                            | resolve _ => resolve true
                            | reject err => reject err
                            end))
  end.

Definition checkSession (audience : option string) (scope : string)
    : M (Promise bool) :=
  mret (WebAuth_checkSession audience scope (checkSession_callback audience)).

(** The closure returned by [subscribe]. *)
Definition unsubscribe (subscriberKey : Z) : M unit :=
  update (λ o, set_subscribers (delete subscriberKey (_subscribers o)) o).

Definition subscribe (subscriber : Subscriber) : M (M unit) :=
  subscriberKey ← now;
  update (λ o, set_subscribers
            (<[subscriberKey := subscriber]> (_subscribers o)) o);;
  mret (unsubscribe subscriberKey).

(** ** The manager as a transition system

    Everything that can happen to a manager: the application calls a
    public method or a closure returned by [subscribe], the SDK invokes
    one of the callbacks it was given, time passes, the page navigates.
    Replies are not tied to an outstanding request here, so the worlds
    reachable in this system include all those of an actual run. *)
Inductive Event :=
  | call_signIn
  | call_signOut (returnTo : option string)
  | call_parseHash
  | call_checkSession (audience : option string) (scope : string)
  | call_subscribe (subscriber : Subscriber)
  | call_unsubscribe (subscriberKey : Z)
  | reply_parseHash (reply : Reply AuthResult)
  | reply_checkSession (audience : option string) (reply : Reply AuthResult)
  | reply_userInfo (authResult : AuthResult) (audience : option string)
      (reply : Reply Auth0UserProfile)
  | tick (t : Z)
  | navigate (hash : string).

Definition discard {A : Type} (m : M A) : M unit := _ ← m; mret tt.

Definition handle (ev : Event) : M unit :=
  match ev with
  | call_signIn => signIn
  | call_signOut returnTo => signOut returnTo
  | call_parseHash => discard parseHash
  | call_checkSession audience scope => discard (checkSession audience scope)
  | call_subscribe subscriber => discard (subscribe subscriber)
  | call_unsubscribe subscriberKey => unsubscribe subscriberKey
  | reply_parseHash reply => discard (parseHash_callback reply)
  | reply_checkSession audience reply =>
      discard (checkSession_callback audience reply)
  | reply_userInfo authResult audience reply =>
      discard (loadProfile_callback authResult audience reply)
  | tick t => λ w,
      (tt, {| this := this w; location_hash := location_hash w; Date_now := t |}, [])
  | navigate hash => set_location_hash hash
  end.

Fixpoint run (evs : list Event) : M unit :=
  match evs with
  | [] => mret tt
  | ev :: evs => handle ev;; run evs
  end.

(** The world right after [new Auth0Web(properties)]. *)
Definition initial (properties : AuthOptions) (hash : string) (t : Z) : World :=
  {| this := constructor properties; location_hash := hash; Date_now := t |}.

Definition reachable (w : World) : Prop :=
  ∃ properties hash t evs, (run evs (initial properties hash t)).1.2 = w.

(** [settles p w s w']: the promise [p], returned in world [w], settles
    with [s]; [w'] is the world right after the callback that settled it.
    Each callback runs in an arbitrary world, since anything may have
    happened while the request was outstanding. *)
Inductive settles {A : Type} : Promise A → World → Settlement A → World → Prop :=
  | settles_Settled s w : settles (Settled s) w s w
  | settles_parseHash callback w reply w1 p w2 e s w3 :
      callback reply w1 = (p, w2, e) → settles p w2 s w3 →
      settles (WebAuth_parseHash callback) w s w3
  | settles_checkSession audience scope callback w reply w1 p w2 e s w3 :
      callback reply w1 = (p, w2, e) → settles p w2 s w3 →
      settles (WebAuth_checkSession audience scope callback) w s w3
  | settles_userInfo token callback w reply w1 p w2 e s w3 :
      callback reply w1 = (p, w2, e) → settles p w2 s w3 →
      settles (WebAuth_userInfo token callback) w s w3.

(** The notifications [notifySubscribers] emits in a world. *)
Definition notifications (authenticated : bool) (audience : option string)
    (w : World) : list Effect :=
  (notifySubscribers authenticated audience w).2.

(** Events that can put another entry in the default slot: [signOut],
    which empties the cache, and a result or a profile handled for the
    audience 'default'. *)
Definition may_replace_default (ev : Event) : bool :=
  match ev with
  | call_signOut _ => true
  | reply_checkSession audience (Success _) =>
      bool_decide (truthy audience = Some DEFAULT_KEY)
  | reply_userInfo _ audience (Success _) =>
      bool_decide (truthy audience = Some DEFAULT_KEY)
  | _ => false
  end.

(** The [userInfo] callback run on a profile. *)
Definition delivers_profile (ev : Event) : bool :=
  match ev with
  | reply_userInfo _ _ (Success _) => true
  | _ => false
  end.

End Auth0Web.

Arguments Failure {Auth0Error A} err.
Arguments Success {Auth0Error A} result.
Arguments resolve {Auth0Error A} value.
Arguments reject {Auth0Error A} err.
Arguments Settled {Auth0UserProfile Auth0Error AuthOptions Subscriber A} s.
Arguments WebAuth_parseHash
  {Auth0UserProfile Auth0Error AuthOptions Subscriber A} callback.
Arguments WebAuth_checkSession
  {Auth0UserProfile Auth0Error AuthOptions Subscriber A} audience scope callback.
Arguments WebAuth_userInfo
  {Auth0UserProfile Auth0Error AuthOptions Subscriber A} token callback.

(** The SDK answering the request a promise is pending on. *)
Inductive Answer {Auth0UserProfile Auth0Error : Type} :=
  | parsed (reply : @Reply Auth0Error AuthResult)
  | checked (reply : @Reply Auth0Error AuthResult)
  | fetched (reply : @Reply Auth0Error Auth0UserProfile).

Definition answer {Auth0UserProfile Auth0Error AuthOptions Subscriber A : Type}
    (p : @Promise Auth0UserProfile Auth0Error AuthOptions Subscriber A)
    (a : @Answer Auth0UserProfile Auth0Error) : M (Promise A) :=
  match p, a with
  | WebAuth_parseHash callback, parsed reply => callback reply
  | WebAuth_checkSession _ _ callback, checked reply => callback reply
  | WebAuth_userInfo _ callback, fetched reply => callback reply
  | _, _ => λ w, (p, w, [])
  end.

(** ** A concrete application, for the scenarios

    The profile is the user's name, a subscriber is a name, an error is
    the pair of the fields [error] and [errorDescription], the options
    are [clientID], [domain] and [redirectUri]. *)
Module Scenario.

Record Options := {
  clientID : string;
  domain : string;
  redirectUri : string;
}.

Definition Error : Type := string * string.

Definition error (err : Error) : string := err.1.

Definition properties : Options :=
  {| clientID := "abc"; domain := "x.example.com";
     redirectUri := "https://app/cb" |}.

Definition World : Type := @World string Options string.

Definition start : World := initial properties "#access_token=tok1" 1000.

Definition login_required : Error := ("login_required", "Login required").

Definition invalid_token : Error := ("invalid_token", "Invalid token").

Definition tok1 : AuthResult :=
  {| accessToken := "tok1"; idToken := "id1"; expiresIn := 3600 |}.

Definition tok2 : AuthResult :=
  {| accessToken := "tok2"; idToken := "id2"; expiresIn := 7200 |}.

(** [checkSession()] answered with [tok1], then the profile "alice". *)
Definition signed_in : World :=
  (run (Auth0Error := Error) error clientID
     [reply_checkSession None (Success tok1);
      reply_userInfo tok1 None (Success "alice")] start).1.2.

(** "A" subscribes and a millisecond passes. *)
Definition one_subscriber : World :=
  (run (Auth0Error := Error) error clientID
     [call_subscribe "A"; tick 1001] start).1.2.

(** Then "B" subscribes. *)
Definition two_subscribers : World :=
  (run (Auth0Error := Error) error clientID
     [call_subscribe "B"] one_subscriber).1.2.

(** With "A" and "B" subscribed, [checkSession("urn:api")] is answered
    with [tok1], then the profile "alice". *)
Definition signed_in_two_subscribers : World :=
  (run (Auth0Error := Error) error clientID
     [reply_checkSession (Some "urn:api") (Success tok1);
      reply_userInfo tok1 (Some "urn:api") (Success "alice")]
     two_subscribers).1.2.

(** [checkSession("constructor")] answered with [tok1], then the profile
    "alice": the audience is the string 'constructor'. *)
Definition signed_in_constructor : World :=
  (run (Auth0Error := Error) error clientID
     [reply_checkSession (Some "constructor") (Success tok1);
      reply_userInfo tok1 (Some "constructor") (Success "alice")] start).1.2.

End Scenario.

(** * Properties *)

Section Properties.

Context {Auth0UserProfile Auth0Error AuthOptions Subscriber : Type}.
Context (error : Auth0Error → string) (clientID : AuthOptions → string).

#[local] Abbreviation Auth0Web := (@Auth0Web Auth0UserProfile AuthOptions Subscriber).
#[local] Abbreviation World := (@World Auth0UserProfile AuthOptions Subscriber).
#[local] Abbreviation Effect := (@Effect Subscriber).
#[local] Abbreviation Promise := (@Promise Auth0UserProfile Auth0Error AuthOptions Subscriber).
#[local] Abbreviation Event := (@Event Auth0UserProfile Auth0Error Subscriber).

Implicit Types (o : Auth0Web) (w : World) (audience : option string).

(** Unfolds the monadic plumbing of a computation applied to a world. *)
Ltac step_M :=
  unfold discard, emit, self, now, update, set_location_hash, notifySubscribers;
  unfold mbind, mret, M_bind, M_ret; simpl.

(** ** The token cache *)

Lemma slot_None : slot None = DEFAULT_KEY.
Proof. reflexivity. Qed.

Lemma truthy_Some a : a ≠ "" → truthy (Some a) = Some a.
Proof. intros Ha. unfold truthy. by destruct (decide (a = "")). Qed.

(** ** Reading the token object *)

(** An own entry is truthy. *)
Lemma isAuthenticated_own o audience details :
  _accessTokens o !! slot audience = Some details →
  isAuthenticated o audience = true.
Proof. intros Hd. unfold isAuthenticated, get_property. by rewrite Hd. Qed.

(** The default key is the name of nothing inherited: the test of the
    default slot finds an own entry or nothing. *)
Lemma isAuthenticated_default o :
  isAuthenticated o None =
    match _accessTokens o !! DEFAULT_KEY with
    | Some _ => true
    | None => false
    end.
Proof.
  unfold isAuthenticated, get_property. rewrite slot_None.
  destruct (_accessTokens o !! DEFAULT_KEY); [done|].
  by destruct (_accessTokens o !! "__proto__").
Qed.

(** A name of [Object.prototype] is found whatever the cache holds. *)
Lemma isAuthenticated_inherited o audience :
  slot audience ∈ Object_prototype → isAuthenticated o audience = true.
Proof.
  intros Hin. unfold isAuthenticated, get_property.
  destruct (_accessTokens o !! slot audience); [done|].
  rewrite (bool_decide_eq_true_2 _ Hin).
  destruct (_accessTokens o !! "__proto__"); [|done].
  destruct (decide (slot audience = "accessToken")) as [He|_].
  { rewrite He in Hin. apply list_elem_of_In in Hin. simpl in Hin.
    exfalso. intuition discriminate. }
  destruct (decide (slot audience = "expiresAt")) as [He|_]; [|done].
  rewrite He in Hin. apply list_elem_of_In in Hin. simpl in Hin.
  exfalso. intuition discriminate.
Qed.

(** [addAccessToken] touches the token cache only, and emits nothing. *)
Lemma addAccessToken_frame accessToken expiresAt audience w :
  ∃ tokens,
    addAccessToken accessToken expiresAt audience w =
      (tt, {| this := set_accessTokens tokens (this w);
              location_hash := location_hash w; Date_now := Date_now w |}, []) ∧
    tokens =
      (let details := Details.mk accessToken expiresAt in
       let seeded := match _accessTokens (this w) !! DEFAULT_KEY with
                     | None => <[DEFAULT_KEY := details]> (_accessTokens (this w))
                     | Some _ => _accessTokens (this w)
                     end in
       match truthy audience with
       | Some a => <[a := details]> seeded
       | None => seeded
       end).
Proof.
  destruct w as [[tokens props idt prof subs] hash t].
  unfold addAccessToken. step_M.
  destruct (tokens !! DEFAULT_KEY) eqn:Hd; simpl;
    destruct (truthy audience); simpl; eexists; split; reflexivity.
Qed.

(** The same, read slot by slot. *)
Lemma addAccessToken_lookup accessToken expiresAt audience w k :
  _accessTokens (this (addAccessToken accessToken expiresAt audience w).1.2) !! k =
    if decide (truthy audience = Some k) then Some (Details.mk accessToken expiresAt)
    else if decide (k = DEFAULT_KEY) then
      match _accessTokens (this w) !! DEFAULT_KEY with
      | None => Some (Details.mk accessToken expiresAt)
      | Some d => Some d
      end
    else _accessTokens (this w) !! k.
Proof.
  destruct (addAccessToken_frame accessToken expiresAt audience w) as (tokens & -> & ->).
  simpl. destruct (truthy audience) as [a|] eqn:Ha.
  - destruct (decide (Some a = Some k)) as [[= ->]|Hne].
    + by rewrite lookup_insert_eq.
    + rewrite lookup_insert_ne by congruence.
      destruct (decide (k = DEFAULT_KEY)) as [->|Hk];
        destruct (_accessTokens (this w) !! DEFAULT_KEY) eqn:Hd;
        rewrite ?lookup_insert_eq, ?lookup_insert_ne; done.
  - destruct (decide (None = Some k)); [done|].
    destruct (decide (k = DEFAULT_KEY)) as [->|Hk];
      destruct (_accessTokens (this w) !! DEFAULT_KEY) eqn:Hd;
      rewrite ?lookup_insert_eq, ?lookup_insert_ne; done.
Qed.

Lemma addAccessToken_rest accessToken expiresAt audience w :
  let w' := (addAccessToken accessToken expiresAt audience w).1.2 in
  (addAccessToken accessToken expiresAt audience w).2 = [] ∧
  _currentProperties (this w') = _currentProperties (this w) ∧
  _idToken (this w') = _idToken (this w) ∧
  _profile (this w') = _profile (this w) ∧
  _subscribers (this w') = _subscribers (this w) ∧
  location_hash w' = location_hash w ∧
  Date_now w' = Date_now w.
Proof.
  destruct (addAccessToken_frame accessToken expiresAt audience w) as (tokens & -> & _).
  done.
Qed.


(** ** Reading the cache *)

(** X16. [getAccessToken] returns the token string of the entry held in
    the slot of the audience, the default slot when no audience is given
    (an empty string counts as none), and nothing when the slot holds no
    entry.  [isAuthenticated] is true whenever [getAccessToken] returns
    a token, and [isAuthenticated()] is true exactly when the default
    slot holds an entry.  For an audience, [isAuthenticated] is also
    true when the audience is a name of [Object.prototype], whatever the
    cache holds; apart from an entry in the slot, a true answer has no
    other source than that and the members of an entry assigned to
    [__proto__].  Neither getter looks at [expiresAt]: an entry that
    expired before any given time [t] is still reported authenticated
    and its token is returned. *)
Theorem getAccessToken_isAuthenticated_presence o audience :
  slot None = DEFAULT_KEY ∧
  slot (Some "") = DEFAULT_KEY ∧
  (∀ a, a ≠ "" → slot (Some a) = a) ∧
  getAccessToken o audience =
    Details.accessToken <$> _accessTokens o !! slot audience ∧
  (is_Some (getAccessToken o audience) → isAuthenticated o audience = true) ∧
  (isAuthenticated o None = true ↔ is_Some (_accessTokens o !! DEFAULT_KEY)) ∧
  (slot audience ∈ Object_prototype → isAuthenticated o audience = true) ∧
  (isAuthenticated o audience = true →
   is_Some (_accessTokens o !! slot audience) ∨
   slot audience ∈ Object_prototype ∨
   (is_Some (_accessTokens o !! "__proto__") ∧
    (slot audience = "accessToken" ∨ slot audience = "expiresAt"))) ∧
  (∀ details (t : Z),
     _accessTokens o !! slot audience = Some details →
     (Details.expiresAt details < t)%Z →
     isAuthenticated o audience = true ∧
     getAccessToken o audience = Some (Details.accessToken details)).
Proof.
  split; [done|]. split; [done|]. split.
  { intros a Ha. unfold slot. by rewrite truthy_Some. }
  split.
  { unfold getAccessToken. by destruct (_accessTokens o !! slot audience). }
  split.
  { unfold getAccessToken.
    destruct (_accessTokens o !! slot audience) as [d|] eqn:Hd.
    - intros _. by apply (isAuthenticated_own _ _ d).
    - by intros [? [=]]. }
  split.
  { rewrite isAuthenticated_default.
    destruct (_accessTokens o !! DEFAULT_KEY); split; eauto; done. }
  split; [apply isAuthenticated_inherited|]. split.
  { unfold isAuthenticated, get_property.
    destruct (_accessTokens o !! slot audience); [eauto|].
    destruct (bool_decide (slot audience ∈ Object_prototype)) eqn:Hin.
    { apply bool_decide_eq_true in Hin. eauto. }
    destruct (_accessTokens o !! "__proto__"); [|done].
    destruct (decide (slot audience = "accessToken")); [eauto 6|].
    destruct (decide (slot audience = "expiresAt")); [eauto 6|done]. }
  intros details t Hd _. split.
  - by apply (isAuthenticated_own _ _ details).
  - unfold getAccessToken. by rewrite Hd.
Qed.

(** ** checkSession: errors *)

(** C1. The promise of [checkSession] is pending on the SDK's session
    check.  When the SDK reports an error whose [error] field is
    'login_required', the promise resolves with [false]; on any other
    error it rejects with that very error.  In both cases the world, and
    so [isAuthenticated()], is as it was when the callback ran. *)
Theorem checkSession_error audience scope (err : Auth0Error) w w1 :
  checkSession error audience scope w =
    (WebAuth_checkSession audience scope (checkSession_callback error audience),
     w, []) ∧
  (error err = "login_required" →
   checkSession_callback error audience (Failure err) w1 =
     (Settled (resolve false), w1, [])) ∧
  (error err ≠ "login_required" →
   checkSession_callback error audience (Failure err) w1 =
     (Settled (reject err), w1, [])).
Proof.
  split; [reflexivity|]. unfold checkSession_callback.
  split; intros He; destruct (decide (error err = "login_required")); done.
Qed.

(** ** loadProfile *)

(** C7. [loadProfile] only issues the [userInfo] request; when the SDK
    answers with an error the promise rejects with that error and the
    world the callback ran in is returned as it was: token cache,
    profile, identity token, subscribers, and no subscriber is invoked. *)
Theorem loadProfile_failure (authResult : AuthResult) audience (err : Auth0Error) w w1 :
  loadProfile (Auth0Error := Auth0Error) authResult audience w =
    (WebAuth_userInfo (accessToken authResult)
       (loadProfile_callback authResult audience), w, []) ∧
  loadProfile_callback authResult audience (Failure err) w1 =
    (Settled (reject err), w1, []).
Proof. split; reflexivity. Qed.

(** What the [userInfo] callback does with a profile. *)
Lemma loadProfile_callback_success (authResult : AuthResult) audience
    (profile : Auth0UserProfile) w :
  let expiresAt := (Date_now w + expiresIn authResult * 1000)%Z in
  let w1 := (addAccessToken (accessToken authResult) expiresAt audience w).1.2 in
  loadProfile_callback (Auth0Error := Auth0Error) authResult audience
      (Success profile) w =
    (Settled (resolve None),
     {| this := set_profile (Some profile)
                  (set_idToken (Some (idToken authResult)) (this w1));
        location_hash := location_hash w; Date_now := Date_now w |},
     notifications true None w).
Proof.
  intros expiresAt w1. subst w1 expiresAt.
  unfold loadProfile_callback, notifications. step_M.
  rewrite (Z.add_comm (expiresIn authResult * 1000)).
  destruct (addAccessToken_frame (accessToken authResult)
              (Date_now w + expiresIn authResult * 1000) audience w)
    as (tokens & -> & _).
  simpl. by rewrite app_nil_r.
Qed.

Lemma elem_of_notifications authenticated audience w (e : Effect) :
  e ∈ notifications authenticated audience w ↔
  ∃ k cb, _subscribers (this w) !! k = Some cb ∧
          e = invoke k cb authenticated audience.
Proof.
  unfold notifications, notifySubscribers. simpl.
  rewrite list_elem_of_fmap. split.
  - intros ([k cb] & -> & Hin). exists k, cb.
    by rewrite <- elem_of_map_to_list.
  - intros (k & cb & Hk & ->). exists (k, cb).
    by rewrite elem_of_map_to_list.
Qed.

(** ** checkSession: the short-circuit *)

(** The answer to [checkSession] while the default slot holds an entry:
    one call of [addAccessToken], then [resolve(true)]. *)
Lemma checkSession_callback_short_circuit audience (authResult : AuthResult) w :
  isAuthenticated (this w) None = true →
  checkSession_callback error audience (Success authResult) w =
    (Settled (resolve true),
     (addAccessToken (accessToken authResult)
        (Date_now w + expiresIn authResult * 1000)%Z audience w).1.2, []).
Proof.
  intros Hauth. unfold checkSession_callback. step_M. rewrite Hauth. step_M.
  rewrite (Z.add_comm (expiresIn authResult * 1000)).
  by destruct (addAccessToken_frame (accessToken authResult)
                 (Date_now w + expiresIn authResult * 1000) audience w)
    as (tokens & -> & _).
Qed.

(** C3. When the SDK answers [checkSession(audience)] with a result while
    the default slot holds an entry, the promise settles at once with
    [true] — no [userInfo] request is pending — and nothing is emitted.
    The entry built has [expiresAt = now + expiresIn*1000]; it is cached
    under the audience when one is given (a non-empty string), every
    other slot keeps its content (the whole cache, when no audience is
    given), and the profile, the identity token,
    the subscribers, the fragment and the clock are unchanged. *)
Theorem checkSession_already_authenticated audience (authResult : AuthResult) w :
  isAuthenticated (this w) None = true →
  ∃ w',
    checkSession_callback error audience (Success authResult) w =
      (Settled (resolve true), w', []) ∧
    (∀ a, truthy audience = Some a →
       _accessTokens (this w') !! a =
         Some (Details.mk (accessToken authResult)
                 (Date_now w + expiresIn authResult * 1000)%Z)) ∧
    (∀ k, truthy audience ≠ Some k →
       _accessTokens (this w') !! k = _accessTokens (this w) !! k) ∧
    (truthy audience = None → _accessTokens (this w') = _accessTokens (this w)) ∧
    getProfile (this w') = getProfile (this w) ∧
    _idToken (this w') = _idToken (this w) ∧
    _subscribers (this w') = _subscribers (this w) ∧
    location_hash w' = location_hash w ∧
    Date_now w' = Date_now w.
Proof.
  intros Hauth. eexists. split.
  { by apply checkSession_callback_short_circuit. }
  pose proof (addAccessToken_rest (accessToken authResult)
                (Date_now w + expiresIn authResult * 1000) audience w)
    as (_ & _ & Hid & Hp & Hs & Hh & Ht).
  assert (Hkeep : ∀ k, truthy audience ≠ Some k →
            _accessTokens (this (addAccessToken (accessToken authResult)
                (Date_now w + expiresIn authResult * 1000) audience w).1.2) !! k =
            _accessTokens (this w) !! k).
  { intros k Hk. rewrite addAccessToken_lookup. rewrite decide_False by done.
    destruct (decide (k = DEFAULT_KEY)) as [->|]; [|done].
    rewrite isAuthenticated_default in Hauth.
    by destruct (_accessTokens (this w) !! DEFAULT_KEY). }
  split.
  { intros a Ha. rewrite addAccessToken_lookup. by rewrite decide_True. }
  split; [exact Hkeep|]. split.
  { intros Hnone. apply map_eq. intros k. apply Hkeep. by rewrite Hnone. }
  done.
Qed.

(** ** signOut *)

(** X17. [signOut] runs [clearSession] and then asks the SDK to log out.
    In the world it leaves the token cache is empty, so [getAccessToken]
    returns nothing for every audience and [isAuthenticated()] is false;
    the profile and the identity token are gone and the subscribers are
    still registered.  Every registered subscriber has been invoked with
    [authenticated = false], and the logout, with the configured client
    identifier and the given return address, is the last effect. *)
Theorem signOut_clears_session (returnTo : option string) w :
  ∃ w',
    clearSession w = (tt, w', notifications false None w) ∧
    signOut clientID returnTo w =
      (tt, w', notifications false None w ++
               [logout returnTo (clientID (_currentProperties (this w)))]) ∧
    _accessTokens (this w') = ∅ ∧
    (∀ audience, getAccessToken (this w') audience = None) ∧
    isAuthenticated (this w') None = false ∧
    getProfile (this w') = None ∧
    _idToken (this w') = None ∧
    _subscribers (this w') = _subscribers (this w) ∧
    (∀ k cb, _subscribers (this w) !! k = Some cb →
             invoke k cb false None ∈ notifications false None w).
Proof.
  eexists. split; [reflexivity|]. split; [reflexivity|]. simpl.
  split; [done|]. split.
  { intros audience. unfold getAccessToken. simpl. by rewrite lookup_empty. }
  split; [done|]. do 3 (split; [done|]).
  intros k cb Hk. apply elem_of_notifications. eauto.
Qed.

(** ** Successful authentication *)

(** What the SDK's answer to [parseHash] leads to: a rejection with the
    error as it came, or the fragment cleared and a [userInfo] request
    whose callback is [loadProfile]'s. *)
Lemma parseHash_callback_cases (reply : Reply AuthResult) w :
  parseHash_callback (Auth0Error := Auth0Error) reply w =
    match reply with
    | Failure err => (Settled (reject err), w, [])
    | Success authResult =>
        (await (WebAuth_userInfo (accessToken authResult)
                  (loadProfile_callback authResult None))
           (λ s, match s with
                 | resolve v => resolve v
                 | reject err => reject err
                 end),
         {| this := this w; location_hash := ""; Date_now := Date_now w |}, [])
    end.
Proof. by destruct reply. Qed.

(** The same for a successful answer to [checkSession] when the default
    slot is empty. *)
Lemma checkSession_callback_fetches audience (authResult : AuthResult) w :
  isAuthenticated (this w) None = false →
  checkSession_callback error audience (Success authResult) w =
    (await (WebAuth_userInfo (accessToken authResult)
              (loadProfile_callback authResult audience))
       (λ s, match s with
             | resolve _ => resolve true
             | reject err => reject err
             end),
     {| this := this w; location_hash := ""; Date_now := Date_now w |}, []).
Proof.
  intros Hauth. unfold checkSession_callback. step_M. by rewrite Hauth.
Qed.





(** A promise awaiting [loadProfile] resolves only from the [userInfo]
    callback run on a profile, in the world that callback leaves. *)
Lemma await_loadProfile_resolves {A : Type} (authResult : AuthResult) audience
    (f : Settlement (option Auth0UserProfile) → Settlement A)
    (v : A) w wf :
  (∀ err, f (reject err) = reject err) →
  settles (await (WebAuth_userInfo (accessToken authResult)
                    (loadProfile_callback (Auth0Error := Auth0Error)
                       authResult audience)) f) w (resolve v) wf →
  ∃ profile w1,
    (loadProfile_callback (Auth0Error := Auth0Error) authResult audience
       (Success profile) w1).1.2 = wf ∧
    f (resolve None) = resolve v.
Proof.
  intros Hf Hs. simpl in Hs. inversion Hs as [| | |? ? ? reply w1 p w2 e ? ? Hcb Hp]; subst.
  destruct reply as [err|profile].
  - simpl in Hcb. injection Hcb as <- <- <-. simpl in Hp.
    rewrite Hf in Hp. inversion Hp.
  - rewrite loadProfile_callback_success in Hcb. injection Hcb as <- <- <-.
    simpl in Hp. inversion Hp; subst.
    exists profile, w1. by rewrite loadProfile_callback_success.
Qed.


(** ** The default slot *)

(** How an event can change the token cache: not at all, by emptying it,
    or through [addAccessToken]. *)
Lemma handle_accessTokens (ev : Event) w :
  let tokens' := _accessTokens (this (handle error clientID ev w).1.2) in
  tokens' = _accessTokens (this w) ∨
  tokens' = ∅ ∨
  ∃ accessToken expiresAt audience,
    tokens' = _accessTokens (this (addAccessToken accessToken expiresAt audience w).1.2).
Proof.
  destruct ev as [|returnTo| |audience scope|subscriber|key|reply|audience reply
                 |authResult audience reply|t|hash]; simpl;
    try (left; reflexivity).
  - right; left; reflexivity.
  - destruct reply; left; reflexivity.
  - destruct reply as [err|result].
    + left. unfold discard, checkSession_callback. step_M.
      by destruct (decide (error err = "login_required")).
    + unfold discard, checkSession_callback. step_M.
      destruct (isAuthenticated (this w) None); [|left; reflexivity].
      right; right.
      exists (accessToken result), (expiresIn result * 1000 + Date_now w)%Z, audience.
      step_M.
      destruct (addAccessToken_frame (accessToken result)
                  (expiresIn result * 1000 + Date_now w) audience w)
        as (tokens & -> & _).
      reflexivity.
  - destruct reply as [err|profile]; [left; reflexivity|].
    right; right.
    exists (accessToken authResult), (Date_now w + expiresIn authResult * 1000)%Z,
      audience.
    unfold discard, mbind, M_bind.
    by rewrite loadProfile_callback_success.
Qed.

Lemma run_cons (ev : Event) evs w :
  (run error clientID (ev :: evs) w).1.2 =
  (run error clientID evs (handle error clientID ev w).1.2).1.2.
Proof.
  simpl. step_M.
  destruct (handle error clientID ev w) as [[[] w1] e1]. simpl.
  by destruct (run error clientID evs w1) as [[[] w2] e2].
Qed.

Lemma run_default_slot evs w :
  (∀ k d, _accessTokens (this w) !! k = Some d →
          is_Some (_accessTokens (this w) !! DEFAULT_KEY)) →
  ∀ k d, _accessTokens (this (run error clientID evs w).1.2) !! k = Some d →
         is_Some (_accessTokens (this (run error clientID evs w).1.2) !! DEFAULT_KEY).
Proof.
  revert w. induction evs as [|ev evs IH]; intros w Hw; [exact Hw|].
  rewrite run_cons. apply IH. clear IH.
  destruct (handle_accessTokens ev w) as [->|[->|(tok & exp & aud & ->)]].
  - exact Hw.
  - intros k d. by rewrite lookup_empty.
  - intros _ _ _. rewrite addAccessToken_lookup.
    destruct (decide (truthy aud = Some DEFAULT_KEY)); [eauto|].
    rewrite decide_True by done.
    destruct (_accessTokens (this w) !! DEFAULT_KEY); eauto.
Qed.

(** X15. In every reachable world, if the token cache holds an entry
    under any key, it holds one in the default slot.  [addAccessToken]
    creates the default entry when the slot is empty, and leaves an
    existing default entry as it is whenever the audience it is given is
    not the default key itself. *)
Theorem default_slot_invariant w k d accessToken expiresAt audience w0 d0 :
  (reachable error clientID w →
   _accessTokens (this w) !! k = Some d →
   is_Some (_accessTokens (this w) !! DEFAULT_KEY)) ∧
  (_accessTokens (this w0) !! DEFAULT_KEY = None →
   _accessTokens (this (addAccessToken accessToken expiresAt audience w0).1.2)
     !! DEFAULT_KEY = Some (Details.mk accessToken expiresAt)) ∧
  (_accessTokens (this w0) !! DEFAULT_KEY = Some d0 →
   truthy audience ≠ Some DEFAULT_KEY →
   _accessTokens (this (addAccessToken accessToken expiresAt audience w0).1.2)
     !! DEFAULT_KEY = Some d0).
Proof.
  split; [|split].
  - intros (properties & hash & t & evs & <-). apply run_default_slot.
    intros k' d'. simpl. by rewrite lookup_empty.
  - intros Hd. rewrite addAccessToken_lookup.
    destruct (decide (truthy audience = Some DEFAULT_KEY)); [done|].
    rewrite decide_True by done. by rewrite Hd.
  - intros Hd Ha. rewrite addAccessToken_lookup.
    rewrite decide_False by done. rewrite decide_True by done. by rewrite Hd.
Qed.

(** ** Subscriptions *)

(** C8, amended.  [subscribe] registers the callback under the key
    [Date.now()] and touches no other key, so when that key is not in use
    every earlier registration stays.  The closure it returns removes the
    registration under that key and no other, in whatever world it is
    invoked: from then on no subscriber is invoked under that key, and
    every registration under another key is still there and is still
    invoked by a notification. *)
Theorem subscribe_unsubscribe (subscriber : Subscriber) w w1
    (authenticated : bool) audience :
  ∃ w' w2,
    subscribe subscriber w = (unsubscribe (Date_now w), w', []) ∧
    _subscribers (this w') !! Date_now w = Some subscriber ∧
    (∀ k, k ≠ Date_now w →
          _subscribers (this w') !! k = _subscribers (this w) !! k) ∧
    (_subscribers (this w) !! Date_now w = None →
     ∀ k cb, _subscribers (this w) !! k = Some cb →
             _subscribers (this w') !! k = Some cb) ∧
    unsubscribe (Date_now w) w1 = (tt, w2, []) ∧
    _subscribers (this w2) !! Date_now w = None ∧
    (∀ k, k ≠ Date_now w →
          _subscribers (this w2) !! k = _subscribers (this w1) !! k) ∧
    (∀ cb, invoke (Date_now w) cb authenticated audience
             ∉ notifications authenticated audience w2) ∧
    (∀ k cb, k ≠ Date_now w → _subscribers (this w1) !! k = Some cb →
             invoke k cb authenticated audience
               ∈ notifications authenticated audience w2).
Proof.
  eexists _, _. split; [reflexivity|]. simpl.
  split; [apply lookup_insert_eq|].
  split; [by intros k Hk; rewrite lookup_insert_ne|].
  split.
  { intros Hfresh k cb Hk. rewrite lookup_insert_ne; [done|]. congruence. }
  split; [reflexivity|]. simpl.
  split; [apply lookup_delete_eq|].
  split; [by intros k Hk; rewrite lookup_delete_ne|].
  split.
  - intros cb (k & cb' & Hk & [= <- <-])%elem_of_notifications.
    simpl in Hk. by rewrite lookup_delete_eq in Hk.
  - intros k cb Hne Hk. apply elem_of_notifications. exists k, cb.
    split; [|done]. simpl. by rewrite lookup_delete_ne.
Qed.

(** ** Who notifies the subscribers *)

(** Awaiting a promise changes what it settles with, not what its
    callback does to the world. *)
Lemma await_userInfo {A B : Type} token
    (callback : Reply Auth0UserProfile → M (Promise A))
    (f : Settlement A → Settlement B) :
  ∃ callback',
    await (WebAuth_userInfo token callback) f = WebAuth_userInfo token callback' ∧
    ∀ reply w, (callback' reply w).1.2 = (callback reply w).1.2 ∧
               (callback' reply w).2 = (callback reply w).2.
Proof.
  eexists. split; [reflexivity|]. intros reply w. simpl.
  by destruct (callback reply w) as [[p w'] e].
Qed.

Lemma handle_effects (ev : Event) w :
  (handle error clientID ev w).2 =
    match ev with
    | call_signIn => [authorize]
    | call_signOut returnTo =>
        notifications false None w ++
        [logout returnTo (clientID (_currentProperties (this w)))]
    | reply_userInfo _ _ (Success _) => notifications true None w
    | _ => []
    end.
Proof.
  destruct ev as [|returnTo| |audience scope|subscriber|key|reply|audience reply
                 |authResult audience reply|t|hash]; try reflexivity.
  - by destruct reply.
  - destruct reply as [err|result].
    + unfold handle, discard, checkSession_callback. step_M.
      by destruct (decide (error err = "login_required")).
    + unfold handle, discard, checkSession_callback. step_M.
      destruct (isAuthenticated (this w) None); [|reflexivity].
      step_M.
      by destruct (addAccessToken_frame (accessToken result)
                     (expiresIn result * 1000 + Date_now w) audience w)
        as (tokens & -> & _).
  - destruct reply as [err|profile]; [reflexivity|].
    unfold handle, discard, mbind, M_bind.
    rewrite loadProfile_callback_success. simpl. by rewrite app_nil_r.
Qed.

(** C10. Whatever event the manager handles, a subscriber is invoked only
    by the [userInfo] callback run on a profile, with [authenticated =
    true], or by [signOut], whose [clearSession] invokes it with
    [authenticated = false]; the subscriber is a registered one and no
    audience is passed.  In particular the short-circuit of
    [checkSession] emits nothing and leaves the profile and the identity
    token as they were, while the new entry is cached under the audience
    given. *)
Theorem subscribers_notified_only_on_load_and_clear (ev : Event) w
    k cb (b : bool) (aud : option string) audience (authResult : AuthResult) :
  (invoke k cb b aud ∈ (handle error clientID ev w).2 →
   _subscribers (this w) !! k = Some cb ∧ aud = None ∧
   ((∃ result a profile, ev = reply_userInfo result a (Success profile) ∧ b = true) ∨
    (∃ returnTo, ev = call_signOut returnTo ∧ b = false))) ∧
  (isAuthenticated (this w) None = true →
   ∃ w',
     checkSession_callback error audience (Success authResult) w =
       (Settled (resolve true), w', []) ∧
     getProfile (this w') = getProfile (this w) ∧
     _idToken (this w') = _idToken (this w) ∧
     (∀ a, truthy audience = Some a →
        _accessTokens (this w') !! a =
          Some (Details.mk (accessToken authResult)
                  (Date_now w + expiresIn authResult * 1000)%Z))).
Proof.
  split.
  - rewrite handle_effects.
    destruct ev as [|returnTo| |? ?|?|?|?|? ?|result a [err|profile]|?|?];
      try (by intros ?%elem_of_nil).
    + intros Hin%list_elem_of_singleton. discriminate.
    + intros [Hin|Hin%list_elem_of_singleton]%elem_of_app; [|discriminate].
      apply elem_of_notifications in Hin as (k' & cb' & Hk & [= -> -> -> ->]).
      eauto 10.
    + intros Hin.
      apply elem_of_notifications in Hin as (k' & cb' & Hk & [= -> -> -> ->]).
      eauto 10.
  - intros Hauth. eexists. split.
    { by apply checkSession_callback_short_circuit. }
    pose proof (addAccessToken_rest (accessToken authResult)
                  (Date_now w + expiresIn authResult * 1000) audience w)
      as (_ & _ & Hid & Hp & _).
    split; [done|]. split; [done|].
    intros a Ha. rewrite addAccessToken_lookup. by rewrite decide_True.
Qed.

(** ** parseHash *)

(** Whatever the profile, the promise of [parseHash] resolves with no
    value. *)
Lemma parseHash_resolves_with_undefined (v : option Auth0UserProfile) w wf :
  settles (parseHash (Auth0Error := Auth0Error) w).1.1 w (resolve v) wf →
  v = None.
Proof.
  intros Hs. simpl in Hs.
  inversion Hs as [|? ? reply w0 p w2 e ? ? Hcb Hp| |]; subst.
  rewrite parseHash_callback_cases in Hcb. destruct reply as [err|result].
  - injection Hcb as <- <- <-. inversion Hp.
  - injection Hcb as <- <- <-.
    apply await_loadProfile_resolves in Hp as (pr & w3 & _ & [= <-]); done.
Qed.

(** ** The world after an event *)

Lemma handle_world (ev : Event) w :
  (handle error clientID ev w).1.2 =
    match ev with
    | call_signOut _ =>
        {| this := set_idToken None (set_accessTokens ∅ (set_profile None (this w)));
           location_hash := location_hash w; Date_now := Date_now w |}
    | call_subscribe subscriber =>
        {| this := set_subscribers
                     (<[Date_now w := subscriber]> (_subscribers (this w))) (this w);
           location_hash := location_hash w; Date_now := Date_now w |}
    | call_unsubscribe subscriberKey =>
        {| this := set_subscribers
                     (delete subscriberKey (_subscribers (this w))) (this w);
           location_hash := location_hash w; Date_now := Date_now w |}
    | reply_parseHash (Success _) =>
        {| this := this w; location_hash := ""; Date_now := Date_now w |}
    | reply_checkSession audience (Success authResult) =>
        if isAuthenticated (this w) None
        then (addAccessToken (accessToken authResult)
                (Date_now w + expiresIn authResult * 1000)%Z audience w).1.2
        else {| this := this w; location_hash := ""; Date_now := Date_now w |}
    | reply_userInfo authResult audience (Success profile) =>
        {| this := set_profile (Some profile)
                     (set_idToken (Some (idToken authResult))
                        (this (addAccessToken (accessToken authResult)
                                 (Date_now w + expiresIn authResult * 1000)%Z
                                 audience w).1.2));
           location_hash := location_hash w; Date_now := Date_now w |}
    | tick t => {| this := this w; location_hash := location_hash w; Date_now := t |}
    | navigate hash =>
        {| this := this w; location_hash := hash; Date_now := Date_now w |}
    | _ => w
    end.
Proof.
  destruct ev as [|returnTo| |audience scope|subscriber|key|reply|audience reply
                 |authResult audience reply|t|hash]; try reflexivity.
  - by destruct reply.
  - destruct reply as [err|result].
    + unfold handle, discard, checkSession_callback. step_M.
      by destruct (decide (error err = "login_required")).
    + destruct (isAuthenticated (this w) None) eqn:Hauth.
      * unfold handle, discard, mbind, M_bind.
        by rewrite checkSession_callback_short_circuit.
      * unfold handle, discard, mbind, M_bind.
        by rewrite checkSession_callback_fetches.
  - destruct reply as [err|profile]; [reflexivity|].
    unfold handle, discard, mbind, M_bind.
    by rewrite loadProfile_callback_success.
Qed.

(** A property kept by every event of a run holds at its end. *)
Lemma run_invariant (P : World → Prop) (Q : Event → Prop) evs w :
  (∀ ev w, Q ev → P w → P (handle error clientID ev w).1.2) →
  Forall Q evs → P w → P (run error clientID evs w).1.2.
Proof.
  intros Hstep. revert w. induction evs as [|ev evs IH]; intros w Hevs Hw.
  - exact Hw.
  - rewrite run_cons. inversion Hevs; subst. apply IH; [done|]. by apply Hstep.
Qed.

Lemma reachable_invariant (P : World → Prop) w :
  (∀ properties hash t, P (initial properties hash t)) →
  (∀ ev w, P w → P (handle error clientID ev w).1.2) →
  reachable error clientID w → P w.
Proof.
  intros Hinit Hstep (properties & hash & t & evs & <-).
  apply (run_invariant P (λ _, True)); [by auto| |by apply Hinit].
  by apply Forall_forall.
Qed.

Lemma truthy_nonempty audience a : truthy audience = Some a → a ≠ "".
Proof.
  unfold truthy. destruct audience as [b|]; [|done].
  destruct (decide (b = "")); [done|]. by intros [= <-].
Qed.

(** Cases on an event and on the reply it carries. *)
Ltac event_cases ev :=
  destruct ev as [|rt| |aud sc|sub|key|[err|res]|aud [err|res]
                 |res aud [err|prof]|tm|frag]; simpl.

Lemma addAccessToken_default accessToken expiresAt audience w :
  is_Some (_accessTokens
             (this (addAccessToken accessToken expiresAt audience w).1.2)
             !! DEFAULT_KEY).
Proof.
  rewrite addAccessToken_lookup.
  destruct (decide (truthy audience = Some DEFAULT_KEY)); [eauto|].
  rewrite decide_True by done.
  destruct (_accessTokens (this w) !! DEFAULT_KEY); eauto.
Qed.

(** ** The configuration *)

(** X1. Whatever has happened to a manager since it was constructed,
    [getProperties] returns the options it was constructed with, and
    [signOut] ends by asking the SDK to log out with their [clientID]. *)
Theorem properties_fixed (properties : AuthOptions) hash t (evs : list Event)
    (returnTo : option string) :
  let w := (run error clientID evs (initial properties hash t)).1.2 in
  getProperties (this w) = properties ∧
  last (signOut clientID returnTo w).2 =
    Some (logout returnTo (clientID properties)).
Proof.
  intros w.
  assert (Hp : _currentProperties (this w) = properties).
  { apply (run_invariant (λ w, _currentProperties (this w) = properties)
             (λ _, True)); [|by apply Forall_forall|done].
    intros ev w0 _ <-. rewrite handle_world.
    event_cases ev; try done.
    - destruct (isAuthenticated (this w0) None); [|done].
      by destruct (addAccessToken_rest (accessToken res)
                     (Date_now w0 + expiresIn res * 1000) aud w0)
        as (_ & ? & _).
    - by destruct (addAccessToken_rest (accessToken res)
                     (Date_now w0 + expiresIn res * 1000) aud w0)
        as (_ & ? & _). }
  split; [exact Hp|].
  change (signOut clientID returnTo w).2
    with (notifications false None w ++
          [logout returnTo (clientID (_currentProperties (this w)))]).
  by rewrite last_snoc, Hp.
Qed.

(** ** Invariants of the session *)

(** X2. In every reachable world the default token, the profile and the
    identity token are there together or not at all: [isAuthenticated()]
    is true exactly when [getProfile()] returns a profile, and exactly
    then an identity token is stored. *)
Theorem session_coupled w :
  reachable error clientID w →
  (isAuthenticated (this w) None = true ↔ is_Some (getProfile (this w))) ∧
  (is_Some (getProfile (this w)) ↔ is_Some (_idToken (this w))).
Proof.
  intros Hw.
  assert (Hauth : ∀ w, isAuthenticated (this w) None = true ↔
                       is_Some (_accessTokens (this w) !! DEFAULT_KEY)).
  { intros w0. rewrite isAuthenticated_default.
    destruct (_accessTokens (this w0) !! DEFAULT_KEY); split; eauto; done. }
  rewrite Hauth. revert Hw.
  apply (reachable_invariant
           (λ w, (is_Some (_accessTokens (this w) !! DEFAULT_KEY) ↔
                  is_Some (getProfile (this w))) ∧
                 (is_Some (getProfile (this w)) ↔ is_Some (_idToken (this w))))).
  { intros properties hash t. unfold getProfile. simpl. rewrite lookup_empty.
    split; split; by intros [? [=]]. }
  clear w. intros ev w (Htp & Hpi). rewrite handle_world. unfold getProfile in *.
  event_cases ev; try done.
  - rewrite lookup_empty. split; split; by intros [? [=]].
  - destruct (isAuthenticated (this w) None) eqn:Ha; [|done].
    apply Hauth in Ha.
    pose proof (addAccessToken_default (accessToken res)
                  (Date_now w + expiresIn res * 1000) aud w) as Hd.
    destruct (addAccessToken_rest (accessToken res)
                (Date_now w + expiresIn res * 1000) aud w)
      as (_ & _ & -> & -> & _).
    split; [|done]. split; [by intros _; apply Htp|done].
  - pose proof (addAccessToken_default (accessToken res)
                  (Date_now w + expiresIn res * 1000) aud w) as Hd.
    split; split; eauto.
Qed.

(** X12. No reachable world has an entry under the empty string: an
    empty audience is never a key of the token cache. *)
Theorem no_entry_under_empty_audience w :
  reachable error clientID w → _accessTokens (this w) !! "" = None.
Proof.
  assert (Hadd : ∀ tok exp audience w,
            _accessTokens (this w) !! "" = None →
            _accessTokens (this (addAccessToken tok exp audience w).1.2) !! "" = None).
  { intros tok exp audience w0 Hw0. rewrite addAccessToken_lookup.
    destruct (decide (truthy audience = Some "")) as [He|_].
    - by apply truthy_nonempty in He.
    - by rewrite decide_False. }
  apply (reachable_invariant (λ w, _accessTokens (this w) !! "" = None)).
  { intros properties hash t. apply lookup_empty. }
  intros ev w0 Hw0. rewrite handle_world.
  event_cases ev; try done.
  - destruct (isAuthenticated (this w0) None); [by apply Hadd|done].
  - by apply Hadd.
Qed.

(** X13. A manager that has not yet been handed a profile by [userInfo]
    holds nothing: as long as no [userInfo] callback has run on a
    profile, the token cache is empty — [isAuthenticated()] is false and
    [getAccessToken] returns nothing for any audience — and there is no
    profile and no identity token.  A successful session check alone
    never authenticates. *)
Theorem nothing_cached_before_first_profile (properties : AuthOptions) hash t
    (evs : list Event) :
  Forall (λ ev, delivers_profile ev = false) evs →
  let w := (run error clientID evs (initial properties hash t)).1.2 in
  _accessTokens (this w) = ∅ ∧
  isAuthenticated (this w) None = false ∧
  (∀ audience, getAccessToken (this w) audience = None) ∧
  getProfile (this w) = None ∧
  _idToken (this w) = None.
Proof.
  intros Hevs w.
  assert (H : _accessTokens (this w) = ∅ ∧ _profile (this w) = None ∧
              _idToken (this w) = None).
  { apply (run_invariant
             (λ w, _accessTokens (this w) = ∅ ∧ _profile (this w) = None ∧
                   _idToken (this w) = None)
             (λ ev, delivers_profile ev = false)); [|exact Hevs|done].
    intros ev w0 Hev (Ht & Hp & Hi). rewrite handle_world.
    event_cases ev; try done.
    rewrite isAuthenticated_default, Ht, lookup_empty. done. }
  destruct H as (Ht & Hp & Hi). split; [done|]. split.
  { by rewrite isAuthenticated_default, Ht, lookup_empty. }
  split; [|done].
  intros audience. unfold getAccessToken. by rewrite Ht, lookup_empty.
Qed.

(** X9. The default token is never refreshed.  Once the default slot
    holds an entry, it holds that same entry after any run of events
    that contains no [signOut] and handles no result or profile for the
    audience 'default': further calls of [parseHash()] and
    [checkSession()], with or without an audience, leave
    [getAccessToken()] as it is. *)
Theorem default_token_kept (evs : list Event) w d :
  _accessTokens (this w) !! DEFAULT_KEY = Some d →
  Forall (λ ev, may_replace_default ev = false) evs →
  let w' := (run error clientID evs w).1.2 in
  _accessTokens (this w') !! DEFAULT_KEY = Some d ∧
  getAccessToken (this w') None = Some (Details.accessToken d).
Proof.
  intros Hd Hevs w'.
  assert (H : _accessTokens (this w') !! DEFAULT_KEY = Some d).
  { apply (run_invariant (λ w, _accessTokens (this w) !! DEFAULT_KEY = Some d)
             (λ ev, may_replace_default ev = false)); [|exact Hevs|exact Hd].
    assert (Hadd : ∀ tok exp audience w,
              bool_decide (truthy audience = Some DEFAULT_KEY) = false →
              _accessTokens (this w) !! DEFAULT_KEY = Some d →
              _accessTokens (this (addAccessToken tok exp audience w).1.2)
                !! DEFAULT_KEY = Some d).
    { intros tok exp audience w0 Ha%bool_decide_eq_false Hw0.
      rewrite addAccessToken_lookup. rewrite decide_False by done.
      rewrite decide_True by done. by rewrite Hw0. }
    intros ev w0 Hev Hw0. rewrite handle_world.
    event_cases ev; try done.
    - destruct (isAuthenticated (this w0) None); [by apply Hadd|done].
    - by apply Hadd. }
  split; [exact H|]. unfold getAccessToken. by rewrite slot_None, H.
Qed.

(** ** What an event leaves alone *)

(** X3. The session — token cache, profile, identity token — is changed
    by three events only: [signOut], the answer to [checkSession] with a
    result while the default slot holds an entry, and the [userInfo]
    callback run on a profile.  [signIn], the calls of [parseHash] and
    [checkSession], every error reported by the SDK, a parsed fragment,
    [subscribe] and the closures it returns leave it as it is. *)
Theorem session_changed_only_by (ev : Event) w :
  let w' := (handle error clientID ev w).1.2 in
  _accessTokens (this w') ≠ _accessTokens (this w) ∨
  getProfile (this w') ≠ getProfile (this w) ∨
  _idToken (this w') ≠ _idToken (this w) →
  (∃ returnTo, ev = call_signOut returnTo) ∨
  (∃ audience authResult,
     ev = reply_checkSession audience (Success authResult) ∧
     isAuthenticated (this w) None = true) ∨
  (∃ authResult audience profile,
     ev = reply_userInfo authResult audience (Success profile)).
Proof.
  intros w'. subst w'. rewrite handle_world. unfold getProfile.
  event_cases ev; eauto 10; try (by intros [?|[?|?]]).
  destruct (isAuthenticated (this w) None); [eauto 10|].
  by intros [?|[?|?]].
Qed.

(** X4. The registry of subscribers is changed by [subscribe] and by the
    closures it returns, and by nothing else: [signOut] and the
    authentication flows keep every subscriber registered. *)
Theorem subscribers_changed_only_by (ev : Event) w :
  _subscribers (this (handle error clientID ev w).1.2) ≠ _subscribers (this w) →
  (∃ subscriber, ev = call_subscribe subscriber) ∨
  (∃ subscriberKey, ev = call_unsubscribe subscriberKey).
Proof.
  rewrite handle_world.
  event_cases ev; eauto; try done.
  - destruct (isAuthenticated (this w) None); [|done].
    by destruct (addAccessToken_rest (accessToken res)
                   (Date_now w + expiresIn res * 1000) aud w)
      as (_ & _ & _ & _ & -> & _).
  - by destruct (addAccessToken_rest (accessToken res)
                   (Date_now w + expiresIn res * 1000) aud w)
      as (_ & _ & _ & _ & -> & _).
Qed.

(** X5. The manager clears the URL fragment when the SDK has parsed it
    into a result, and when the SDK answers [checkSession] with a result
    while the default slot is empty; it never writes anything else to
    it.  An error, the short-circuit of [checkSession], the [userInfo]
    callback and [signOut] leave the fragment as it is. *)
Theorem fragment_cleared_on_result (ev : Event) w :
  location_hash (handle error clientID ev w).1.2 =
    match ev with
    | navigate hash => hash
    | reply_parseHash (Success _) => ""
    | reply_checkSession _ (Success _) =>
        if isAuthenticated (this w) None then location_hash w else ""
    | _ => location_hash w
    end.
Proof.
  rewrite handle_world.
  event_cases ev; try done.
  destruct (isAuthenticated (this w) None); [|done].
  by destruct (addAccessToken_rest (accessToken res)
                 (Date_now w + expiresIn res * 1000) aud w)
    as (_ & _ & _ & _ & _ & -> & _).
Qed.

(** ** signOut, again *)

(** X6. [signOut] takes the manager back to the state of a freshly
    constructed one, except that the subscribers stay registered; signing
    out a second time changes nothing more, and notifies the same
    subscribers and asks for the same logout again. *)
Theorem signOut_idempotent (returnTo returnTo' : option string) w :
  let w1 := (signOut clientID returnTo w).1.2 in
  this w1 = set_subscribers (_subscribers (this w))
              (constructor (_currentProperties (this w))) ∧
  (signOut clientID returnTo' w1).1.2 = w1 ∧
  (signOut clientID returnTo' w1).2 = (signOut clientID returnTo' w).2.
Proof. repeat split. Qed.

(** ** subscribe and its closure *)

(** X7. [subscribe] followed by the closure it returned leaves the
    registry without any registration under the key [Date.now()]: when
    that key was not in use the world is exactly as before, and when it
    was, the earlier registration under it is lost as well. *)
Theorem subscribe_then_unsubscribe (subscriber : Subscriber) w :
  let w' := (subscribe subscriber w).1.2 in
  let w2 := ((subscribe subscriber w).1.1 w').1.2 in
  _subscribers (this w2) = delete (Date_now w) (_subscribers (this w)) ∧
  (_subscribers (this w) !! Date_now w = None → w2 = w).
Proof.
  destruct w as [[tokens props idt prof subs] hash t]. simpl.
  unfold set_subscribers. simpl. rewrite delete_insert_eq.
  split; [done|]. intros Hfresh. by rewrite delete_id.
Qed.

(** X8. A closure returned by [subscribe] that finds no registration
    under its key does nothing: invoked in a world where the key is not
    registered it returns the world unchanged, so invoking it a second
    time has no further effect. *)
Theorem unsubscribe_missing (subscriberKey : Z) w :
  (_subscribers (this w) !! subscriberKey = None →
   unsubscribe subscriberKey w = (tt, w, [])) ∧
  unsubscribe subscriberKey (unsubscribe subscriberKey w).1.2 =
    (tt, (unsubscribe subscriberKey w).1.2, []).
Proof.
  destruct w as [[tokens props idt prof subs] hash t].
  unfold unsubscribe, update, set_subscribers. simpl. split.
  - intros Hk. by rewrite delete_id.
  - by rewrite delete_delete_eq.
Qed.

(** ** Loading a profile again *)

(** X10. When a profile arrives for a request made without an audience
    while the default slot holds an entry — [parseHash()] on a manager
    that is already signed in — the new access token is dropped: the
    token cache is left exactly as it was and [getAccessToken()] still
    returns the earlier token, while the identity token and the profile
    are replaced by the new ones. *)
Theorem loadProfile_keeps_default_token (authResult : AuthResult) audience
    (profile : Auth0UserProfile) w d :
  truthy audience = None →
  _accessTokens (this w) !! DEFAULT_KEY = Some d →
  let w' := (loadProfile_callback (Auth0Error := Auth0Error) authResult audience
               (Success profile) w).1.2 in
  _accessTokens (this w') = _accessTokens (this w) ∧
  getAccessToken (this w') None = Some (Details.accessToken d) ∧
  _idToken (this w') = Some (idToken authResult) ∧
  getProfile (this w') = Some profile.
Proof.
  intros Ha Hd w'. subst w'. rewrite loadProfile_callback_success. simpl.
  assert (Ht : _accessTokens
                 (this (addAccessToken (accessToken authResult)
                          (Date_now w + expiresIn authResult * 1000) audience w).1.2)
               = _accessTokens (this w)).
  { apply map_eq. intros k. rewrite addAccessToken_lookup, Ha.
    rewrite decide_False by done.
    destruct (decide (k = DEFAULT_KEY)) as [->|]; [|done]. by rewrite Hd. }
  split; [exact Ht|]. split; [|done].
  unfold getAccessToken. simpl. by rewrite Ht, slot_None, Hd.
Qed.

(** ** One notification per registration *)

(** X11. [notifySubscribers] makes exactly one call for each registration:
    as many calls as the registry has keys, and no call twice. *)
Theorem notifySubscribers_once_each (authenticated : bool) audience w :
  length (notifySubscribers authenticated audience w).2 =
    size (_subscribers (this w)) ∧
  NoDup (notifySubscribers authenticated audience w).2.
Proof.
  unfold notifySubscribers. simpl. split.
  - by rewrite length_fmap, length_map_to_list.
  - apply NoDup_fmap_2_strong; [|apply NoDup_map_to_list].
    intros [k1 cb1] [k2 cb2] _ _ [= -> ->]. done.
Qed.

(** ** checkSession without a session *)

(** X14. When the SDK answers [checkSession] with a result while the
    default slot is empty, the manager clears the fragment and asks
    [userInfo] for the profile of the result's access token, changing
    nothing else and notifying nobody.  If [userInfo] then reports an
    error the promise rejects with that error, in a world left as the
    callback found it; if it returns a profile the promise resolves with
    [true]. *)
Theorem checkSession_fetches_profile audience (authResult : AuthResult)
    (err : Auth0Error) (profile : Auth0UserProfile) w w1 :
  isAuthenticated (this w) None = false →
  ∃ callback,
    checkSession_callback error audience (Success authResult) w =
      (WebAuth_userInfo (accessToken authResult) callback,
       {| this := this w; location_hash := ""; Date_now := Date_now w |}, []) ∧
    callback (Failure err) w1 = (Settled (reject err), w1, []) ∧
    (callback (Success profile) w1).1.1 = Settled (resolve true) ∧
    (callback (Success profile) w1).1.2 =
      (loadProfile_callback (Auth0Error := Auth0Error) authResult audience
         (Success profile) w1).1.2.
Proof.
  intros Hauth. rewrite checkSession_callback_fetches by done.
  eexists. split; [reflexivity|]. split; [reflexivity|].
  cbv beta. by rewrite loadProfile_callback_success.
Qed.

End Properties.

(** * Scenarios *)

(** The theorems above at the inputs of the scenarios. *)

Lemma checkSession_error_scenario :
  checkSession_callback Scenario.error None
      (Failure Scenario.login_required) Scenario.start =
    (Settled (resolve false), Scenario.start, []) ∧
  isAuthenticated (this Scenario.start) None = false ∧
  checkSession_callback Scenario.error None
      (Failure Scenario.invalid_token) Scenario.start =
    (Settled (reject Scenario.invalid_token), Scenario.start, []).
Proof.
  split; [|split].
  - apply (checkSession_error Scenario.error None "openid"
             Scenario.login_required Scenario.start Scenario.start).
    reflexivity.
  - reflexivity.
  - apply (checkSession_error Scenario.error None "openid"
             Scenario.invalid_token Scenario.start Scenario.start).
    vm_compute. discriminate.
Defined.

Lemma getAccessToken_isAuthenticated_presence_scenario :
  (isAuthenticated (this Scenario.signed_in) None = true ∧
   getAccessToken (this Scenario.signed_in) None = Some "tok1") ∧
  isAuthenticated (this Scenario.start) (Some "toString") = true ∧
  getAccessToken (this Scenario.start) (Some "toString") = None.
Proof.
  split; [|split].
  - destruct (getAccessToken_isAuthenticated_presence
                (this Scenario.signed_in) None)
      as (_ & _ & _ & _ & _ & _ & _ & _ & Hexpired).
    apply (Hexpired (Details.mk "tok1" 3601000) 9999999%Z); reflexivity.
  - destruct (getAccessToken_isAuthenticated_presence
                (this Scenario.start) (Some "toString"))
      as (_ & _ & _ & _ & _ & _ & Hinherited & _).
    apply Hinherited. apply list_elem_of_In. vm_compute. tauto.
  - reflexivity.
Defined.

Lemma checkSession_already_authenticated_scenario :
  ∃ w',
    checkSession_callback Scenario.error (Some "urn:other")
        (Success Scenario.tok2) Scenario.signed_in =
      (Settled (resolve true), w', []) ∧
    getAccessToken (this w') (Some "urn:other") = Some "tok2" ∧
    getProfile (this w') = Some "alice".
Proof.
  destruct (checkSession_already_authenticated Scenario.error (Some "urn:other")
              Scenario.tok2 Scenario.signed_in) as (w' & Hcb & Ha & _ & _ & Hp & _).
  { reflexivity. }
  exists w'. split; [exact Hcb|]. split.
  - unfold getAccessToken. change (slot (Some "urn:other")) with "urn:other".
    rewrite (Ha "urn:other"); reflexivity.
  - rewrite Hp. reflexivity.
Defined.


Lemma signOut_clears_session_scenario :
  getAccessToken (this Scenario.signed_in_two_subscribers) (Some "urn:api") =
    Some "tok1" ∧
  ∃ w',
    signOut Scenario.clientID (Some "https://app")
        Scenario.signed_in_two_subscribers =
      (tt, w', notifications false None Scenario.signed_in_two_subscribers ++
               [logout (Some "https://app") "abc"]) ∧
    _accessTokens (this w') = ∅ ∧
    getAccessToken (this w') (Some "urn:api") = None ∧
    getProfile (this w') = None ∧
    invoke 1001 "B" false None
      ∈ notifications false None Scenario.signed_in_two_subscribers.
Proof.
  split; [reflexivity|].
  destruct (signOut_clears_session Scenario.clientID (Some "https://app")
              Scenario.signed_in_two_subscribers)
    as (w' & _ & Hout & Hempty & Hnone & _ & Hprofile & _ & _ & Hall).
  exists w'. split; [exact Hout|]. split; [exact Hempty|].
  split; [apply Hnone|]. split; [exact Hprofile|].
  apply Hall. reflexivity.
Defined.

Lemma default_slot_invariant_scenario :
  is_Some (_accessTokens (this Scenario.signed_in_two_subscribers) !! DEFAULT_KEY) ∧
  _accessTokens
    (this (addAccessToken "tok1" 3601000 (Some "urn:api") Scenario.start).1.2)
    !! DEFAULT_KEY = Some (Details.mk "tok1" 3601000) ∧
  _accessTokens
    (this (addAccessToken "tok2" 7201000 (Some "urn:other") Scenario.signed_in).1.2)
    !! DEFAULT_KEY = Some (Details.mk "tok1" 3601000).
Proof.
  split; [|split].
  - apply (default_slot_invariant Scenario.error Scenario.clientID
             Scenario.signed_in_two_subscribers "urn:api"
             (Details.mk "tok1" 3601001)
             "" 0%Z None Scenario.start (Details.mk "" 0)).
    + exists Scenario.properties, "#access_token=tok1", 1000%Z,
        [call_subscribe "A"; tick 1001; call_subscribe "B";
         reply_checkSession (Some "urn:api") (Success Scenario.tok1);
         reply_userInfo Scenario.tok1 (Some "urn:api") (Success "alice")].
      reflexivity.
    + reflexivity.
  - apply (default_slot_invariant Scenario.error Scenario.clientID
             Scenario.start DEFAULT_KEY (Details.mk "" 0)
             "tok1" 3601000%Z (Some "urn:api") Scenario.start (Details.mk "" 0)).
    reflexivity.
  - apply (default_slot_invariant Scenario.error Scenario.clientID
             Scenario.start DEFAULT_KEY (Details.mk "" 0)
             "tok2" 7201000%Z (Some "urn:other") Scenario.signed_in
             (Details.mk "tok1" 3601000)).
    + reflexivity.
    + vm_compute. discriminate.
Defined.

(** C2, at a failing input.  The manager is signed in, so the default
    slot holds the entry of "tok1"; [checkSession("default")] then
    succeeds with "tok2": the guard of [addAccessToken] leaves the
    default slot alone, and the assignment under the audience, whose
    name is the default key, replaces the entry with that of "tok2". *)
Lemma default_slot_overwritten :
  let w' := (checkSession_callback Scenario.error (Some "default")
               (Success Scenario.tok2) Scenario.signed_in).1.2 in
  reachable Scenario.error Scenario.clientID Scenario.signed_in ∧
  _accessTokens (this Scenario.signed_in) !! DEFAULT_KEY =
    Some (Details.mk "tok1" 3601000) ∧
  _accessTokens (this w') !! DEFAULT_KEY = Some (Details.mk "tok2" 7201000) ∧
  _accessTokens (this w') !! DEFAULT_KEY ≠
    _accessTokens (this Scenario.signed_in) !! DEFAULT_KEY.
Proof.
  split; [|split; [|split]].
  - exists Scenario.properties, "#access_token=tok1", 1000%Z,
      [reply_checkSession None (Success Scenario.tok1);
       reply_userInfo Scenario.tok1 None (Success "alice")].
    reflexivity.
  - reflexivity.
  - reflexivity.
  - vm_compute. discriminate.
Qed.

Lemma subscribe_unsubscribe_scenario :
  _subscribers (this Scenario.one_subscriber) !! 1001%Z = None ∧
  ∃ w' w2,
    subscribe "B" Scenario.one_subscriber = (unsubscribe 1001, w', []) ∧
    _subscribers (this w') !! 1000%Z = Some "A" ∧
    _subscribers (this w') !! 1001%Z = Some "B" ∧
    unsubscribe 1001 Scenario.two_subscribers = (tt, w2, []) ∧
    _subscribers (this w2) !! 1001%Z = None ∧
    invoke 1000 "A" true None ∈ notifications true None w2.
Proof.
  split; [reflexivity|].
  destruct (subscribe_unsubscribe "B" Scenario.one_subscriber
              Scenario.two_subscribers true None)
    as (w' & w2 & Hsub & HB & _ & Hkept & Hun & Hgone & _ & _ & Hothers).
  exists w', w2. split; [exact Hsub|]. split.
  { apply Hkept; reflexivity. }
  split; [exact HB|]. split; [exact Hun|]. split; [exact Hgone|].
  apply Hothers.
  - vm_compute. discriminate.
  - reflexivity.
Defined.

(** C8, as stated, fails: "A" and "B" subscribe within the same
    millisecond.  Both are registered under the key 1000, so "B" takes
    the place of "A", which is no longer notified although it never
    unsubscribed; and the closure returned to "A" removes the
    registration of "B", which is then not notified either. *)
Lemma subscribe_same_timestamp :
  let '(unsubscribeA, wA, _) := subscribe "A" Scenario.start in
  let '(unsubscribeB, wB, _) := subscribe "B" wA in
  let '(_, w3, _) := unsubscribeA wB in
  _subscribers (this wA) !! 1000%Z = Some "A" ∧
  _subscribers (this wB) !! 1000%Z = Some "B" ∧
  notifications true None wB = [invoke 1000 "B" true None] ∧
  notifications true None w3 = [].
Proof. repeat split; reflexivity. Qed.

Lemma subscribers_notified_only_on_load_and_clear_scenario :
  invoke 1000 "A" false None
    ∈ (handle Scenario.error Scenario.clientID (call_signOut None)
         Scenario.two_subscribers).2 ∧
  _subscribers (this Scenario.two_subscribers) !! 1000%Z = Some "A".
Proof.
  assert (Hin : invoke 1000 "A" false None
                  ∈ (handle Scenario.error Scenario.clientID (call_signOut None)
                       Scenario.two_subscribers).2).
  { vm_compute. apply list_elem_of_In. simpl. tauto. }
  split; [exact Hin|].
  apply (subscribers_notified_only_on_load_and_clear Scenario.error
           Scenario.clientID (call_signOut None) Scenario.two_subscribers
           1000%Z "A" false None None Scenario.tok1).
  exact Hin.
Defined.

(** C4, at a concrete input: the fragment parses to [tok1] and the
    provider returns the profile "alice".  The fragment is cleared and
    the profile is stored, but the promise of [parseHash] resolves with
    no value. *)
Theorem parseHash_resolves_without_profile :
  let '(p0, w0, _) := parseHash (Auth0Error := Scenario.Error) Scenario.start in
  let '(p1, w1, _) := answer p0 (parsed (Success Scenario.tok1)) w0 in
  let '(p2, w2, _) := answer p1 (fetched (Success "alice")) w1 in
  location_hash w1 = "" ∧
  p2 = Settled (resolve None) ∧
  getProfile (this w2) = Some "alice".
Proof. repeat split; reflexivity. Qed.

(** ** Further scenarios *)

Lemma session_coupled_scenario :
  (isAuthenticated (this Scenario.signed_in) None = true ↔
   is_Some (getProfile (this Scenario.signed_in))) ∧
  isAuthenticated (this Scenario.signed_in) None = true.
Proof.
  split; [|reflexivity].
  apply (session_coupled Scenario.error Scenario.clientID Scenario.signed_in).
  exists Scenario.properties, "#access_token=tok1", 1000%Z,
    [reply_checkSession None (Success Scenario.tok1);
     reply_userInfo Scenario.tok1 None (Success "alice")].
  reflexivity.
Defined.

Lemma no_entry_under_empty_audience_scenario :
  let w := (run Scenario.error Scenario.clientID
              [reply_checkSession (Some "") (Success Scenario.tok1);
               reply_userInfo Scenario.tok1 (Some "") (Success "alice")]
              Scenario.start).1.2 in
  _accessTokens (this w) !! "" = None ∧
  getAccessToken (this w) (Some "") = Some "tok1".
Proof.
  intros w. split; [|reflexivity].
  apply (no_entry_under_empty_audience Scenario.error Scenario.clientID w).
  exists Scenario.properties, "#access_token=tok1", 1000%Z,
    [reply_checkSession (Some "") (Success Scenario.tok1);
     reply_userInfo Scenario.tok1 (Some "") (Success "alice")].
  reflexivity.
Defined.

Lemma nothing_cached_before_first_profile_scenario :
  let w := (run Scenario.error Scenario.clientID
              [call_checkSession (Some "urn:api") "openid";
               reply_checkSession (Some "urn:api") (Success Scenario.tok1);
               call_subscribe "A";
               reply_userInfo Scenario.tok1 (Some "urn:api")
                 (Failure Scenario.invalid_token)]
              Scenario.start).1.2 in
  _accessTokens (this w) = ∅ ∧ getProfile (this w) = None.
Proof.
  intros w.
  destruct (nothing_cached_before_first_profile (Auth0UserProfile := string)
              (Subscriber := string) Scenario.error Scenario.clientID
              Scenario.properties "#access_token=tok1" 1000%Z
              [call_checkSession (Some "urn:api") "openid";
               reply_checkSession (Some "urn:api") (Success Scenario.tok1);
               call_subscribe "A";
               reply_userInfo Scenario.tok1 (Some "urn:api")
                 (Failure Scenario.invalid_token)])
    as (Hempty & _ & _ & Hprofile & _).
  { repeat constructor. }
  split; [exact Hempty|exact Hprofile].
Defined.

Lemma default_token_kept_scenario :
  let w' := (run Scenario.error Scenario.clientID
               [reply_parseHash (Success Scenario.tok2);
                reply_userInfo Scenario.tok2 None (Success "bob");
                reply_checkSession (Some "urn:other") (Success Scenario.tok2);
                reply_checkSession None (Success Scenario.tok2)]
               Scenario.signed_in).1.2 in
  getAccessToken (this w') None = Some "tok1" ∧
  getAccessToken (this w') (Some "urn:other") = Some "tok2" ∧
  getProfile (this w') = Some "bob".
Proof.
  intros w'. split; [|split; reflexivity].
  apply (default_token_kept Scenario.error Scenario.clientID
           [reply_parseHash (Success Scenario.tok2);
            reply_userInfo Scenario.tok2 None (Success "bob");
            reply_checkSession (Some "urn:other") (Success Scenario.tok2);
            reply_checkSession None (Success Scenario.tok2)]
           Scenario.signed_in (Details.mk "tok1" 3601000)).
  - reflexivity.
  - repeat constructor.
Defined.

Lemma session_changed_only_by_scenario :
  let ev : @Event string Scenario.Error string := call_signOut None in
  (∃ returnTo, ev = call_signOut returnTo) ∨
  (∃ audience authResult,
     ev = reply_checkSession audience (Success authResult) ∧
     isAuthenticated (this Scenario.signed_in) None = true) ∨
  (∃ authResult audience profile,
     ev = reply_userInfo authResult audience (Success profile)).
Proof.
  intros ev.
  apply (session_changed_only_by Scenario.error Scenario.clientID
           ev Scenario.signed_in).
  left. intros H.
  apply (f_equal (λ m : gmap string Details.t, m !! DEFAULT_KEY)) in H.
  vm_compute in H. discriminate.
Defined.

Lemma subscribers_changed_only_by_scenario :
  let ev : @Event string Scenario.Error string := call_subscribe "A" in
  (∃ subscriber, ev = call_subscribe subscriber) ∨
  (∃ subscriberKey, ev = call_unsubscribe subscriberKey).
Proof.
  intros ev.
  apply (subscribers_changed_only_by Scenario.error Scenario.clientID
           ev Scenario.start).
  intros H. apply (f_equal (λ m : gmap Z string, m !! 1000%Z)) in H.
  vm_compute in H. discriminate.
Defined.

Lemma subscribe_then_unsubscribe_scenario :
  ((subscribe "A" Scenario.start).1.1 (subscribe "A" Scenario.start).1.2).1.2 =
    Scenario.start.
Proof.
  destruct (subscribe_then_unsubscribe "A" Scenario.start) as [_ Hback].
  apply Hback. reflexivity.
Defined.

Lemma unsubscribe_missing_scenario :
  unsubscribe 42 Scenario.two_subscribers = (tt, Scenario.two_subscribers, []).
Proof.
  destruct (unsubscribe_missing 42 Scenario.two_subscribers) as [Hnoop _].
  apply Hnoop. reflexivity.
Defined.

Lemma loadProfile_keeps_default_token_scenario :
  let w' := (loadProfile_callback (Auth0Error := Scenario.Error) Scenario.tok2
               None (Success "bob") Scenario.signed_in).1.2 in
  getAccessToken (this w') None = Some "tok1" ∧
  _idToken (this w') = Some "id2" ∧
  getProfile (this w') = Some "bob".
Proof.
  destruct (loadProfile_keeps_default_token (Auth0Error := Scenario.Error)
              Scenario.tok2 None "bob" Scenario.signed_in
              (Details.mk "tok1" 3601000)) as (_ & Htoken & Hid & Hprofile).
  - reflexivity.
  - reflexivity.
  - intros w'. split; [exact Htoken|]. split; [exact Hid|exact Hprofile].
Defined.

Lemma checkSession_fetches_profile_scenario :
  ∃ callback,
    checkSession_callback Scenario.error (Some "urn:api")
        (Success Scenario.tok1) Scenario.start =
      (WebAuth_userInfo "tok1" callback,
       initial Scenario.properties "" 1000, []) ∧
    callback (Failure Scenario.invalid_token) Scenario.start =
      (Settled (reject Scenario.invalid_token), Scenario.start, []).
Proof.
  destruct (checkSession_fetches_profile Scenario.error (Some "urn:api")
              Scenario.tok1 Scenario.invalid_token "alice"
              Scenario.start Scenario.start)
    as (callback & Hcb & Hfail & _).
  { reflexivity. }
  exists callback. split; [exact Hcb|exact Hfail].
Defined.

(** C9, at a failing input.  On a manager that has cached nothing,
    [isAuthenticated] answers true for the audiences 'constructor',
    'toString' and '__proto__': the read of the empty token object finds
    the members it inherits.  No entry exists for them, and
    [getAccessToken] returns nothing. *)
Theorem isAuthenticated_inherited_member :
  _accessTokens (this Scenario.start) = ∅ ∧
  isAuthenticated (this Scenario.start) (Some "constructor") = true ∧
  isAuthenticated (this Scenario.start) (Some "toString") = true ∧
  isAuthenticated (this Scenario.start) (Some "__proto__") = true ∧
  getAccessToken (this Scenario.start) (Some "constructor") = None ∧
  isAuthenticated (this Scenario.start) (Some "urn:api") = false ∧
  isAuthenticated (this Scenario.start) None = false.
Proof. repeat split; reflexivity. Qed.

(** C5, at a failing input.  The manager is signed in for the audience
    'constructor', so an entry is cached for it; after [signOut] the
    token cache is empty and [getAccessToken("constructor")] returns
    nothing, but [isAuthenticated("constructor")] is still true: the
    read of the emptied token object finds the inherited member. *)
Theorem signOut_leaves_inherited_member :
  let w' := (signOut Scenario.clientID None
               Scenario.signed_in_constructor).1.2 in
  getAccessToken (this Scenario.signed_in_constructor) (Some "constructor") =
    Some "tok1" ∧
  _accessTokens (this w') = ∅ ∧
  getAccessToken (this w') (Some "constructor") = None ∧
  getProfile (this w') = None ∧
  isAuthenticated (this w') None = false ∧
  isAuthenticated (this w') (Some "constructor") = true.
Proof. repeat split; reflexivity. Qed.
